(** * server.js: the relay between the Arduino, the WebSocket clients and
      the Firestore document doorState/current

    A shallow embedding of [src/server.js].  The program is a set of event
    handlers (callbacks) registered on three adapters: the serial port, the
    WebSocket server and the Firestore subscription.  Every handler is
    embedded as a function over an explicit [world], which records the calls
    the handlers make on the adapters ([port.write], [ws.send],
    [doorStateDocRef.set], [console.log]/[console.error], [process.exit]). *)

From Stdlib Require Import NArith ZArith Lia Ascii String.
From stdpp Require Import base option list strings gmap.

Open Scope N_scope.

(** ** JavaScript strings

    A JavaScript string is a sequence of UTF-16 code units.  [lit] embeds an
    ASCII literal of the source. *)

Abbreviation jsstring := (list N).

Fixpoint lit (s : string) : jsstring :=
  match s with
  | EmptyString => []
  | String a s' => N_of_ascii a :: lit s'
  end.

Arguments lit : simpl never.

(** The newline ["\n"] that every write to the port appends. *)
Definition NL : jsstring := [10].

(** ECMAScript WhiteSpace: TAB, VT, FF, ZWNBSP and the space separators. *)
Definition is_white_space (c : N) : bool :=
  (c =? 9) || (c =? 11) || (c =? 12) || (c =? 32) || (c =? 160)
  || (c =? 5760) || ((8192 <=? c) && (c <=? 8202))
  || (c =? 8239) || (c =? 8287) || (c =? 12288) || (c =? 65279).

(** ECMAScript LineTerminator: LF, CR, LS, PS. *)
Definition is_line_terminator (c : N) : bool :=
  (c =? 10) || (c =? 13) || (c =? 8232) || (c =? 8233).

(** What [String.prototype.trim] strips from both ends. *)
Definition is_trimmable (c : N) : bool :=
  is_white_space c || is_line_terminator c.

Fixpoint trimStart (s : jsstring) : jsstring :=
  match s with
  | [] => []
  | c :: s' => if is_trimmable c then trimStart s' else s
  end.

Definition trimEnd (s : jsstring) : jsstring :=
  rev (trimStart (rev s)).

(** [String.prototype.trim]. *)
Definition trim (s : jsstring) : jsstring := trimEnd (trimStart s).

(** [String.prototype.startsWith] (position 0). *)
Fixpoint startsWith (s p : jsstring) : bool :=
  match p, s with
  | [], _ => true
  | _ :: _, [] => false
  | a :: p', c :: s' => (c =? a) && startsWith s' p'
  end.

(** [===] on two strings. *)
Definition str_eqb (s t : jsstring) : bool := bool_decide (s = t).

(** The string begins with a code unit that [trim] strips. *)
Definition starts_trimmable (s : jsstring) : bool :=
  match s with
  | [] => false
  | c :: _ => is_trimmable c
  end.

(** A string neither begins nor ends with a trimmable code unit. *)
Definition trimmed (s : jsstring) : bool :=
  negb (starts_trimmable s) && negb (starts_trimmable (rev s)).

Definition all_trimmable (s : jsstring) : bool := forallb is_trimmable s.

(** ** Values of a Firestore document field, as JavaScript sees them *)

(** A JavaScript number: NaN, an infinity, or the finite value [m * 2^e]. *)
Inductive jsnumber :=
| JNaN
| JInf (negative : bool)
| JFin (m e : Z).

Inductive jsval :=
| VUndefined
| VNull
| VBool (b : bool)
| VNumber (x : jsnumber)
| VString (s : jsstring)
| VObject.                     (* a map, array, timestamp, reference, ... *)

(** ToBoolean: what [!v] negates. *)
Definition truthy (v : jsval) : bool :=
  match v with
  | VUndefined | VNull => false
  | VBool b => b
  | VNumber JNaN => false
  | VNumber (JInf _) => true
  | VNumber (JFin m _) => negb (m =? 0)%Z
  | VString s => negb (str_eqb s [])
  | VObject => true
  end.

(** [v === "..."]: strict equality of a value with a string literal. *)
Definition strict_eq_str (v : jsval) (s : jsstring) : bool :=
  match v with
  | VString t => str_eqb t s
  | _ => false
  end.

(** [data.f]: property access on the plain object [docSnapshot.data()]
    returns; a missing property reads as [undefined]. *)
Definition field (data : gmap string jsval) (f : string) : jsval :=
  default VUndefined (data !! f).

(** The argument of the [onSnapshot] callback: [docSnapshot.exists] and the
    result of [docSnapshot.data()] ([None] for [undefined]). *)
Record DocumentSnapshot := {
  snap_exists : bool;
  snap_data : option (gmap string jsval)
}.

Record Error := { message : jsstring }.

(** ** The world the handlers act on *)

(** The four values of [ws.readyState]. *)
Inductive ready_state := CONNECTING | OPEN | CLOSING | CLOSED.

#[global] Instance ready_state_eq_dec : EqDecision ready_state.
Proof. solve_decision. Defined.

(** A client connection: its [readyState] and the messages handed to its
    [send], oldest first. *)
Record connection := {
  readyState : ready_state;
  sent : list jsstring
}.

(** The six [port.write] call sites of the source; each registers its own
    error callback, which differs from the others in its message only. *)
Inductive write_site :=
| W_PASSCODE | W_CLOSE | W_RESET | W_message | W_UNLOCK | W_LOCK.

Inductive console_arg :=
| AStr (s : jsstring)
| AVal (v : jsval)
| AErr (e : Error).

Inductive console_entry :=
| Log (args : list console_arg)        (* console.log *)
| Err (args : list console_arg).       (* console.error *)

Record world := {
  serial_tx : list (jsstring * write_site);  (* port.write calls, in order *)
  console : list console_entry;              (* console output, in order *)
  clients : list connection;                 (* wss.clients, in insertion order *)
  doc_sets : list (gmap string jsval);       (* doorStateDocRef.set calls, in order *)
  exit_status : option Z                     (* Some c once process.exit(c) ran *)
}.

Definition initial (cs : list connection) : world :=
  {| serial_tx := []; console := []; clients := cs; doc_sets := [];
     exit_status := None |}.

(** An action is a piece of handler code run on the world.  Code placed
    after [process.exit] never runs: sequencing stops in a terminated
    process. *)
Definition action := world -> world.

Definition alive (a : action) : action :=
  fun w => match exit_status w with Some _ => w | None => a w end.

Definition seq (a b : action) : action := fun w => alive b (a w).

Definition skip : action := fun w => w.

Notation "a ;;; b" := (seq a b) (at level 100, b at level 200, right associativity).

(** *** The calls on the adapters *)

Definition console_log (args : list console_arg) : action := fun w =>
  {| serial_tx := serial_tx w; console := console w ++ [Log args];
     clients := clients w; doc_sets := doc_sets w;
     exit_status := exit_status w |}.

Definition console_error (args : list console_arg) : action := fun w =>
  {| serial_tx := serial_tx w; console := console w ++ [Err args];
     clients := clients w; doc_sets := doc_sets w;
     exit_status := exit_status w |}.

(** [port.write(data, cb)] where [cb] is the callback of call site [site]. *)
Definition port_write (data : jsstring) (site : write_site) : action := fun w =>
  {| serial_tx := serial_tx w ++ [(data, site)]; console := console w;
     clients := clients w; doc_sets := doc_sets w;
     exit_status := exit_status w |}.

(** [doorStateDocRef.set(d)]. *)
Definition doc_set (d : gmap string jsval) : action := fun w =>
  {| serial_tx := serial_tx w; console := console w;
     clients := clients w; doc_sets := doc_sets w ++ [d];
     exit_status := exit_status w |}.

(** [process.exit(code)]. *)
Definition process_exit (code : Z) : action := fun w =>
  {| serial_tx := serial_tx w; console := console w;
     clients := clients w; doc_sets := doc_sets w;
     exit_status := Some code |}.

(** [ws.send(msg)]: the message is queued on the connection.  [send]
    reports a transport failure later, through the error event of that
    connection (handled by [ws_on_error]); it does not throw on a
    connection that is [OPEN]. *)
Definition ws_send (msg : jsstring) (ws : connection) : connection :=
  {| readyState := readyState ws; sent := sent ws ++ [msg] |}.

(** [wss.clients.forEach(f)], [f] acting on each connection in turn. *)
Definition clients_forEach (f : connection -> connection) : action := fun w =>
  {| serial_tx := serial_tx w; console := console w;
     clients := map f (clients w); doc_sets := doc_sets w;
     exit_status := exit_status w |}.

(** ** The program *)

Definition ARDUINO_COM_PORT : jsstring := lit "COM6".
Definition BAUD_RATE : Z := 9600.
Definition WS_PORT : Z := 8080.

(** The callback given to [new SerialPort]. *)
Definition serial_open_cb (err : option Error) : action :=
  (match err with
   | Some e =>
       console_error [AStr (lit "Error opening serial port:"); AStr (message e)] ;;;
       process_exit 1
   | None => skip
   end) ;;;
  console_log
    [AStr (lit "Serial port open on " ++ ARDUINO_COM_PORT ++ lit " @ "
           ++ lit "9600" ++ lit " baud")].

(** The callback given to [new WebSocket.Server]. *)
Definition wss_listening_cb : action :=
  console_log [AStr (lit "WebSocket server running on ws://localhost:8080")].

(** The body of the loop of [parser.on("data")]. *)
Definition broadcast_one (msg : jsstring) (ws : connection) : connection :=
  if bool_decide (readyState ws = OPEN) then ws_send msg ws else ws.

(** [parser.on("data", (line) => ...)]. *)
Definition parser_on_data (line : jsstring) : action :=
  let msg := trim line in
  console_log [AStr (8656 :: lit " From Arduino:"); AStr msg] ;;;
  clients_forEach (broadcast_one msg).

(** The error callback of the [port.write] at [site]. *)
Definition site_name (site : write_site) : jsstring :=
  match site with
  | W_PASSCODE => lit "PASSCODE"
  | W_CLOSE => lit "CLOSE"
  | W_RESET => lit "RESET"
  | W_message => lit "message"
  | W_UNLOCK => lit "UNLOCK"
  | W_LOCK => lit "LOCK"
  end.

Definition write_cb (site : write_site) (err : option Error) : action :=
  match err with
  | Some e =>
      console_error
        [AStr (lit "Error writing " ++ site_name site ++ lit " to serial:");
         AStr (message e)]
  | None => skip
  end.

(** [wss.on("connection", (ws) => ...)]. *)
Definition wss_on_connection : action :=
  console_log [AStr (8658 :: lit " App connected")].

(** [ws.on("message", (rawMsg) => ...)]; [rawMsg] is the text
    [rawMsg.toString()] evaluates to. *)
Definition ws_on_message (rawMsg : jsstring) : action :=
  let message := trim rawMsg in
  console_log [AStr (8658 :: lit " To Arduino:"); AStr message] ;;;
  if startsWith message (lit "PASSCODE:") then
    port_write (message ++ NL) W_PASSCODE
  else if str_eqb message (lit "CLOSE") then
    port_write (lit "CLOSE" ++ NL) W_CLOSE
  else if str_eqb message (lit "RESET") then
    port_write (lit "RESET" ++ NL) W_RESET
  else
    port_write (message ++ NL) W_message.

Definition ws_on_close : action :=
  console_log [AStr (8656 :: lit " App disconnected")].

Definition ws_on_error (err : Error) : action :=
  console_error [AStr (lit "WebSocket error:"); AErr err].

(** The document [{ state: "closed" }]. *)
Definition default_doc : gmap string jsval :=
  {[ "state"%string := VString (lit "closed") ]}.

(** The first callback of [doorStateDocRef.onSnapshot]. *)
Definition doorState_onSnapshot (docSnapshot : DocumentSnapshot) : action :=
  if negb (snap_exists docSnapshot) then
    doc_set default_doc
  else
    match snap_data docSnapshot with
    | None => skip
    | Some data =>
        if negb (truthy (field data "state")) then skip
        else
          let newState := field data "state" in
          console_log
            [AStr (lit "Firestore doorState changed to:"); AVal newState] ;;;
          if strict_eq_str newState (lit "open") then
            port_write (lit "UNLOCK" ++ NL) W_UNLOCK
          else if strict_eq_str newState (lit "closed") then
            port_write (lit "LOCK" ++ NL) W_LOCK
          else skip
    end.

(** The second callback of [doorStateDocRef.onSnapshot]. *)
Definition doorState_onError (error : Error) : action :=
  console_error [AStr (lit "Error watching doorState:"); AErr error].

(** ** The event loop *)

(** What the adapters deliver to the callbacks above. *)
Inductive event :=
| EvSerialOpen (err : option Error)
| EvListening
| EvParserData (line : jsstring)
| EvConnection
| EvMessage (rawMsg : jsstring)
| EvClose
| EvWsError (err : Error)
| EvSnapshot (docSnapshot : DocumentSnapshot)
| EvSnapshotError (error : Error)
| EvWritten (site : write_site) (err : option Error).

Definition handler (e : event) : action :=
  match e with
  | EvSerialOpen err => serial_open_cb err
  | EvListening => wss_listening_cb
  | EvParserData line => parser_on_data line
  | EvConnection => wss_on_connection
  | EvMessage rawMsg => ws_on_message rawMsg
  | EvClose => ws_on_close
  | EvWsError err => ws_on_error err
  | EvSnapshot docSnapshot => doorState_onSnapshot docSnapshot
  | EvSnapshotError error => doorState_onError error
  | EvWritten site err => write_cb site err
  end.

(** A terminated process handles no event. *)
Definition dispatch (e : event) : action := alive (handler e).

Definition run (es : list event) (w : world) : world :=
  foldl (fun w e => dispatch e w) w es.

(** The data of the [port.write] calls, without their call sites. *)
Definition written (w : world) : list jsstring := map fst (serial_tx w).

(** A snapshot of an existing document with the given fields. *)
Definition snapshot_of (data : gmap string jsval) : DocumentSnapshot :=
  {| snap_exists := true; snap_data := Some data |}.

(** The state field of a snapshot is populated: the document exists and
    [data.state] is truthy. *)
Definition populated (s : DocumentSnapshot) : bool :=
  snap_exists s &&
  match snap_data s with
  | None => false
  | Some data => truthy (field data "state")
  end.

(** The value of the state field of a snapshot. *)
Definition state_of (s : DocumentSnapshot) : jsval :=
  match snap_data s with
  | None => VUndefined
  | Some data => field data "state"
  end.

(** The event delivers a snapshot of a document that does not exist. *)
Definition absent_snapshot (e : event) : bool :=
  match e with
  | EvSnapshot docSnapshot => negb (snap_exists docSnapshot)
  | _ => false
  end.



(** The events whose handlers contain calls of [console] only. *)
Definition log_only (e : event) : bool :=
  match e with
  | EvSerialOpen None | EvListening | EvConnection | EvClose
  | EvWsError _ | EvSnapshotError _ | EvWritten _ _ => true
  | _ => false
  end.

(** Data that ends with the newline and whose text before the newline has
    no trimmable code unit at either end. *)
Definition device_line_ok (data : jsstring) : Prop :=
  exists body, data = body ++ NL /\ trimmed body = true.

(** ** The process in its environment

    The callbacks above are what the source defines.  What follows is what
    happens around them: the emitters on which the source registers a
    listener for ["error"], the set [wss.clients] the ws library keeps, and
    the [port] stream reporting a failed write. *)

(** The event emitters the source creates or receives: [port], [wss] and
    the [ws] of a connection. *)
Inductive emitter := E_port | E_wss | E_ws.

(** The emitters with a listener for ["error"]: the source registers
    [parser.on("data")], [wss.on("connection")], [ws.on("message")],
    [ws.on("close")] and [ws.on("error")], and no other listener. *)
Definition has_error_listener (em : emitter) : bool :=
  match em with
  | E_ws => true
  | E_port | E_wss => false
  end.

(** An exception nothing catches: Node prints it and ends the process
    with the status 1. *)
Definition uncaught_exception : action := process_exit 1.

(** [em.emit("error", err)]: the listener runs when there is one; without
    a listener the error is thrown. *)
Definition emit_error (em : emitter) (err : Error) : action :=
  if has_error_listener em then ws_on_error err else uncaught_exception.

(** [wss.clients.add(ws)], by the ws library when a client connects. *)
Definition clients_add (ws : connection) : action := fun w =>
  {| serial_tx := serial_tx w; console := console w;
     clients := clients w ++ [ws]; doc_sets := doc_sets w;
     exit_status := exit_status w |}.

(** [wss.clients.delete(ws)], by the ws library when the client at
    position [i] closes. *)
Definition clients_delete (i : nat) : action := fun w =>
  {| serial_tx := serial_tx w; console := console w;
     clients := delete i (clients w); doc_sets := doc_sets w;
     exit_status := exit_status w |}.

(** The ws library changes the [readyState] of the client at position
    [i]. *)
Definition clients_set_state (i : nat) (st : ready_state) : action := fun w =>
  {| serial_tx := serial_tx w; console := console w;
     clients := alter (fun ws => {| readyState := st; sent := sent ws |}) i
                  (clients w);
     doc_sets := doc_sets w;
     exit_status := exit_status w |}.

(** What can happen to the process. *)
Inductive occurrence :=
| Callback (e : event)            (* an adapter calls a callback *)
| Connect                         (* a client connects: the socket joins
                                     wss.clients, then "connection" *)
| Disconnect (i : nat)            (* client i closes: the socket leaves
                                     wss.clients, then "close" *)
| StateChange (i : nat) (st : ready_state)
                                  (* the state of client i changes *)
| WriteFailed (site : write_site) (err : Error)
                                  (* a write fails: the stream calls the
                                     callback of the write with the error,
                                     then emits "error" on the port *)
| EmitError (em : emitter) (err : Error).
                                  (* an emitter emits "error" *)

Definition step (o : occurrence) : action :=
  alive
    (match o with
     | Callback e => handler e
     | Connect =>
         clients_add {| readyState := OPEN; sent := [] |} ;;;
         wss_on_connection
     | Disconnect i => clients_delete i ;;; ws_on_close
     | StateChange i st => clients_set_state i st
     | WriteFailed site err =>
         write_cb site (Some err) ;;; emit_error E_port err
     | EmitError em err => emit_error em err
     end).

Definition run_process (os : list occurrence) (w : world) : world :=
  foldl (fun w o => step o w) w os.



(** * Properties *)

(** ** [trim] strips trimmable code units from the two ends and nothing else *)

Section Trim.

Implicit Types s t w : jsstring.

Lemma all_trimmable_app w1 w2 :
  all_trimmable (w1 ++ w2) = all_trimmable w1 && all_trimmable w2.
Proof. apply forallb_app. Qed.

Lemma all_trimmable_rev w : all_trimmable (rev w) = all_trimmable w.
Proof.
  induction w as [|c w IH]; [done|].
  cbn [rev]. rewrite all_trimmable_app, IH. cbn.
  rewrite andb_true_r. apply andb_comm.
Qed.

Lemma trimStart_app_trimmable w s :
  all_trimmable w = true -> trimStart (w ++ s) = trimStart s.
Proof.
  induction w as [|c w IH]; cbn; [done|].
  intros [Hc Hw]%andb_true_iff. rewrite Hc. auto.
Qed.

Lemma trimStart_all_trimmable w : all_trimmable w = true -> trimStart w = [].
Proof.
  intros H. rewrite <- (app_nil_r w). by rewrite trimStart_app_trimmable.
Qed.

Lemma trimStart_id s : starts_trimmable s = false -> trimStart s = s.
Proof. destruct s as [|c s]; cbn; [done|]. by intros ->. Qed.

Lemma trimStart_starts s : starts_trimmable (trimStart s) = false.
Proof.
  induction s as [|c s IH]; cbn; [done|].
  destruct (is_trimmable c) eqn:Hc; [done|]. cbn. by rewrite Hc.
Qed.

Lemma trimStart_split s :
  exists w, s = w ++ trimStart s /\ all_trimmable w = true.
Proof.
  induction s as [|c s (w & Hs & Hw)]; cbn.
  - by exists [].
  - destruct (is_trimmable c) eqn:Hc.
    + exists (c :: w). split; [cbn; congruence|].
      change (is_trimmable c && all_trimmable w = true). by rewrite Hc, Hw.
    + by exists [].
Qed.

Lemma trimEnd_app_trimmable s w :
  all_trimmable w = true -> trimEnd (s ++ w) = trimEnd s.
Proof.
  intros H. unfold trimEnd. rewrite rev_app_distr.
  rewrite trimStart_app_trimmable; [done | by rewrite all_trimmable_rev].
Qed.

Lemma trimEnd_id s : starts_trimmable (rev s) = false -> trimEnd s = s.
Proof.
  intros H. unfold trimEnd. rewrite trimStart_id by done.
  apply rev_involutive.
Qed.

Lemma trimEnd_split s :
  exists w, s = trimEnd s ++ w /\ all_trimmable w = true.
Proof.
  destruct (trimStart_split (rev s)) as (w & Hs & Hw).
  exists (rev w). split; [|by rewrite all_trimmable_rev].
  unfold trimEnd. rewrite <- rev_app_distr, <- Hs. by rewrite rev_involutive.
Qed.

Lemma trimEnd_starts s :
  starts_trimmable s = false -> starts_trimmable (trimEnd s) = false.
Proof.
  intros H. destruct (trimEnd_split s) as (w & Hs & _).
  destruct (trimEnd s) as [|c t]; [done|].
  rewrite Hs in H. exact H.
Qed.

(** [trim] only removes trimmable code units, and only at the ends. *)
Lemma trim_split s :
  exists w1 w2, s = w1 ++ trim s ++ w2
                /\ all_trimmable w1 = true /\ all_trimmable w2 = true.
Proof.
  destruct (trimStart_split s) as (w1 & Hs & Hw1).
  destruct (trimEnd_split (trimStart s)) as (w2 & Ht & Hw2).
  exists w1, w2. unfold trim. by rewrite <- Ht.
Qed.

(** The result of [trim] neither begins nor ends with such a code unit. *)
Lemma trim_trimmed s : trimmed (trim s) = true.
Proof.
  unfold trimmed, trim.
  rewrite trimEnd_starts by apply trimStart_starts.
  unfold trimEnd. rewrite rev_involutive. by rewrite trimStart_starts.
Qed.

(** Whatever stands between the stripped ends is returned as it is. *)
Lemma trim_sandwich w1 s w2 :
  all_trimmable w1 = true -> all_trimmable w2 = true -> trimmed s = true ->
  trim (w1 ++ s ++ w2) = s.
Proof.
  intros H1 H2 [Hh Hl]%andb_true_iff.
  apply negb_true_iff in Hh. apply negb_true_iff in Hl.
  unfold trim. rewrite trimStart_app_trimmable by done.
  destruct s as [|c s].
  - cbn [app]. by rewrite trimStart_all_trimmable.
  - rewrite (trimStart_id ((c :: s) ++ w2)) by exact Hh.
    rewrite trimEnd_app_trimmable by done. by apply trimEnd_id.
Qed.

Lemma trim_idempotent s : trim (trim s) = trim s.
Proof.
  pose proof (trim_sandwich [] (trim s) [] eq_refl eq_refl (trim_trimmed s)) as H.
  by rewrite app_nil_r in H.
Qed.

(** A trimmed string does not end with a newline. *)
Lemma trim_no_final_newline s t : trim s <> t ++ NL.
Proof.
  intros H. pose proof (trim_trimmed s) as Ht. rewrite H in Ht.
  unfold trimmed, NL in Ht. rewrite rev_app_distr in Ht. cbn in Ht.
  by rewrite andb_false_r in Ht.
Qed.

End Trim.

(** ** The boolean tests of the source against their meaning *)

Lemma startsWith_prefix (s p : jsstring) :
  startsWith s p = true <-> p `prefix_of` s.
Proof.
  revert s. induction p as [|a p IH]; intros s.
  - split; [intros _; apply prefix_nil | by destruct s].
  - destruct s as [|c s]; cbn.
    + split; [done | intros H; by apply prefix_nil_not in H].
    + rewrite andb_true_iff, N.eqb_eq, IH. split.
      * intros [-> H]. by apply prefix_cons.
      * intros H. split; [by apply prefix_cons_inv_1 in H | by apply prefix_cons_inv_2 in H].
Qed.

Lemma startsWith_not_prefix (s p : jsstring) :
  startsWith s p = false <-> ~ p `prefix_of` s.
Proof. rewrite <- startsWith_prefix. by destruct (startsWith s p). Qed.

Lemma str_eqb_eq (s t : jsstring) : str_eqb s t = true <-> s = t.
Proof. apply bool_decide_eq_true. Qed.

Lemma str_eqb_neq (s t : jsstring) : str_eqb s t = false <-> s <> t.
Proof. apply bool_decide_eq_false. Qed.

Lemma strict_eq_str_eq (v : jsval) (s : jsstring) :
  strict_eq_str v s = true <-> v = VString s.
Proof.
  destruct v; cbn; try (split; [done | congruence]).
  rewrite str_eqb_eq. split; congruence.
Qed.

Lemma strict_eq_str_neq (v : jsval) (s : jsstring) :
  strict_eq_str v s = false <-> v <> VString s.
Proof. rewrite <- strict_eq_str_eq. by destruct (strict_eq_str v s). Qed.

(** ** Running the handlers *)

Lemma alive_running (a : action) (w : world) :
  exit_status w = None -> alive a w = a w.
Proof. unfold alive. by intros ->. Qed.

Lemma alive_terminated (a : action) (w : world) (c : Z) :
  exit_status w = Some c -> alive a w = w.
Proof. unfold alive. by intros ->. Qed.

Lemma seq_running (a b : action) (w : world) :
  exit_status (a w) = None -> (a ;;; b) w = b (a w).
Proof. unfold seq. apply alive_running. Qed.

(** Unfolds a handler step by step in a running process. *)
Ltac step_handler :=
  repeat (rewrite seq_running by (cbn; assumption)).

(** Evaluates the comparisons of two literals of the source. *)
Ltac decide_tests :=
  repeat match goal with
    | |- context [str_eqb (lit ?a) (lit ?b)] =>
        let v := eval vm_compute in (str_eqb (lit a) (lit b)) in
        change (str_eqb (lit a) (lit b)) with v
    end.

(** The client-message handler always reduces to one log and one write of
    the trimmed message and a newline. *)
Lemma ws_on_message_running (rawMsg : jsstring) (w : world) :
  exit_status w = None ->
  exists site,
    ws_on_message rawMsg w =
    port_write (trim rawMsg ++ NL) site
      (console_log [AStr (8658 :: lit " To Arduino:"); AStr (trim rawMsg)] w).
Proof.
  intros Hrun. unfold ws_on_message. step_handler.
  destruct (startsWith _ _); [by eexists|].
  destruct (str_eqb _ (lit "CLOSE")) eqn:Hc.
  { apply str_eqb_eq in Hc. rewrite Hc. by eexists. }
  destruct (str_eqb _ (lit "RESET")) eqn:Hr.
  { apply str_eqb_eq in Hr. rewrite Hr. by eexists. }
  by eexists.
Qed.

(** *** The relay of client messages *)

(** C1.  Every client message, once trimmed to [M], makes the handler log
    it and issue exactly one [port.write], from exactly one of the four
    branches: when [M] starts with ["PASSCODE:"] the first branch writes
    [M]; when [M] is ["CLOSE"] the second branch writes the token
    ["CLOSE"]; when [M] is ["RESET"] the third branch writes the token
    ["RESET"]; in every other case the last branch writes [M].  Nothing
    else of the world changes. *)
Theorem client_message_classification (rawMsg : jsstring) (w : world) :
  exit_status w = None ->
  let M := trim rawMsg in
  let w' := ws_on_message rawMsg w in
  (exists data site, serial_tx w' = serial_tx w ++ [(data, site)])
  /\ (lit "PASSCODE:" `prefix_of` M ->
      serial_tx w' = serial_tx w ++ [(M ++ NL, W_PASSCODE)])
  /\ (M = lit "CLOSE" ->
      serial_tx w' = serial_tx w ++ [(lit "CLOSE" ++ NL, W_CLOSE)])
  /\ (M = lit "RESET" ->
      serial_tx w' = serial_tx w ++ [(lit "RESET" ++ NL, W_RESET)])
  /\ (~ lit "PASSCODE:" `prefix_of` M -> M <> lit "CLOSE" -> M <> lit "RESET" ->
      serial_tx w' = serial_tx w ++ [(M ++ NL, W_message)])
  /\ console w' = console w ++ [Log [AStr (8658 :: lit " To Arduino:"); AStr M]]
  /\ clients w' = clients w
  /\ doc_sets w' = doc_sets w
  /\ exit_status w' = None.
Proof.
  intros Hrun M w'. subst w'. unfold ws_on_message. fold M.
  step_handler.
  destruct (startsWith M (lit "PASSCODE:")) eqn:Hp.
  - apply startsWith_prefix in Hp.
    repeat split; cbn; try done; try by eauto.
    + intros ->. by apply startsWith_prefix in Hp.
    + intros ->. by apply startsWith_prefix in Hp.
  - apply startsWith_not_prefix in Hp.
    destruct (str_eqb M (lit "CLOSE")) eqn:Hc.
    { apply str_eqb_eq in Hc. repeat split; cbn; try done; try by eauto.
      intros Hr. by rewrite Hr in Hc. }
    apply str_eqb_neq in Hc.
    destruct (str_eqb M (lit "RESET")) eqn:Hr.
    { apply str_eqb_eq in Hr. repeat split; cbn; try done; try by eauto. }
    apply str_eqb_neq in Hr.
    repeat split; cbn; try done; by eauto.
Qed.

Lemma client_message_classification_witness :
  serial_tx (ws_on_message (lit " PASSCODE:7781 ") (initial []))
  = [(lit "PASSCODE:7781" ++ NL, W_PASSCODE)].
Proof.
  pose proof (client_message_classification (lit " PASSCODE:7781 ") (initial [])
                eq_refl) as (_ & H & _).
  apply H. by exists (lit "7781").
Defined.

(** C10.  The data of the write is the trimmed message followed by one
    newline, whatever the branch, and the trimmed message does not itself
    end with a newline.  The branch is chosen on the trimmed text: ["CLOSE"]
    or ["RESET"] surrounded by whitespace is still written as that command;
    a message of whitespace only is written as a bare newline; newlines
    inside the message are written as they are. *)
Theorem client_message_bytes (rawMsg : jsstring) (w : world) :
  exit_status w = None ->
  written (ws_on_message rawMsg w) = written w ++ [trim rawMsg ++ NL]
  /\ (forall t, trim rawMsg <> t ++ NL)
  /\ (forall w1 w2,
        all_trimmable w1 = true -> all_trimmable w2 = true ->
        serial_tx (ws_on_message (w1 ++ lit "CLOSE" ++ w2) w)
        = serial_tx w ++ [(lit "CLOSE" ++ NL, W_CLOSE)]
        /\ serial_tx (ws_on_message (w1 ++ lit "RESET" ++ w2) w)
           = serial_tx w ++ [(lit "RESET" ++ NL, W_RESET)])
  /\ (all_trimmable rawMsg = true ->
      written (ws_on_message rawMsg w) = written w ++ [NL])
  /\ (forall w1 a b w2,
        rawMsg = w1 ++ (a ++ NL ++ b) ++ w2 ->
        all_trimmable w1 = true -> all_trimmable w2 = true ->
        trimmed (a ++ NL ++ b) = true ->
        written (ws_on_message rawMsg w) = written w ++ [a ++ NL ++ b ++ NL]).
Proof.
  intros Hrun.
  assert (Hw : forall raw, written (ws_on_message raw w)
                           = written w ++ [trim raw ++ NL]).
  { intros raw. destruct (ws_on_message_running raw w Hrun) as [site ->].
    unfold written. cbn. by rewrite map_app. }
  split; [apply Hw|]. split; [apply trim_no_final_newline|].
  split; [|split].
  - intros w1 w2 H1 H2. split.
    + unfold ws_on_message. rewrite trim_sandwich by done. by step_handler.
    + unfold ws_on_message. rewrite trim_sandwich by done. by step_handler.
  - intros Hall. rewrite Hw. unfold trim.
    by rewrite trimStart_all_trimmable.
  - intros w1 a b w2 -> H1 H2 Ht. rewrite Hw, trim_sandwich by done.
    by rewrite <- !app_assoc.
Qed.

Lemma client_message_bytes_witness :
  written (ws_on_message (lit "a" ++ NL ++ lit "b") (initial []))
  = [lit "a" ++ NL ++ lit "b" ++ NL].
Proof.
  pose proof (client_message_bytes (lit "a" ++ NL ++ lit "b") (initial [])
                eq_refl) as (_ & _ & _ & _ & H).
  apply (H [] (lit "a") (lit "b") []); reflexivity.
Defined.

(** ** The door-state subscription *)

Lemma populated_data (s : DocumentSnapshot) :
  populated s = true ->
  snap_exists s = true
  /\ exists data, snap_data s = Some data
                  /\ truthy (field data "state") = true
                  /\ state_of s = field data "state".
Proof.
  unfold populated, state_of. intros [He Hd]%andb_true_iff.
  split; [done|]. destruct (snap_data s) as [data|]; [|done]. by exists data.
Qed.

(** A snapshot with a populated field is logged and mapped to a command by
    the value of the field alone. *)
Lemma onSnapshot_populated (s : DocumentSnapshot) (w : world) :
  exit_status w = None -> populated s = true ->
  doorState_onSnapshot s w =
  (if strict_eq_str (state_of s) (lit "open") then
     port_write (lit "UNLOCK" ++ NL) W_UNLOCK
   else if strict_eq_str (state_of s) (lit "closed") then
     port_write (lit "LOCK" ++ NL) W_LOCK
   else skip)
    (console_log
       [AStr (lit "Firestore doorState changed to:"); AVal (state_of s)] w).
Proof.
  intros Hrun (He & data & Hd & Ht & Hs)%populated_data.
  unfold doorState_onSnapshot. rewrite He, Hd, Ht, Hs. cbn [negb].
  by step_handler.
Qed.

(** A snapshot of an existing document without a populated field changes
    nothing. *)
Lemma onSnapshot_unpopulated (s : DocumentSnapshot) (w : world) :
  snap_exists s = true -> populated s = false ->
  doorState_onSnapshot s w = w.
Proof.
  unfold populated, doorState_onSnapshot. intros ->. cbn.
  destruct (snap_data s) as [data|]; [|done]. by intros ->.
Qed.

(** No snapshot delivery terminates the process. *)
Lemma onSnapshot_exit_status (s : DocumentSnapshot) (w : world) :
  exit_status w = None -> exit_status (doorState_onSnapshot s w) = None.
Proof.
  intros Hrun. destruct (snap_exists s) eqn:He.
  - destruct (populated s) eqn:Hp.
    + rewrite onSnapshot_populated by done.
      by repeat destruct (strict_eq_str _ _).
    + by rewrite onSnapshot_unpopulated.
  - unfold doorState_onSnapshot. by rewrite He.
Qed.

(** C2.  For a snapshot whose state field is populated with the value [v]:
    ["open"] makes the handler write exactly the line ["UNLOCK"],
    ["closed"] exactly the line ["LOCK"], and any other value nothing; in no
    case does the process terminate. *)
Theorem door_state_command (s : DocumentSnapshot) (w : world) :
  exit_status w = None ->
  populated s = true ->
  let v := state_of s in
  let w' := doorState_onSnapshot s w in
  (v = VString (lit "open") ->
   serial_tx w' = serial_tx w ++ [(lit "UNLOCK" ++ NL, W_UNLOCK)])
  /\ (v = VString (lit "closed") ->
      serial_tx w' = serial_tx w ++ [(lit "LOCK" ++ NL, W_LOCK)])
  /\ (v <> VString (lit "open") -> v <> VString (lit "closed") ->
      serial_tx w' = serial_tx w)
  /\ exit_status w' = None.
Proof.
  intros Hrun Hp v w'. subst v w'. rewrite onSnapshot_populated by done.
  split; [|split; [|split]].
  - by intros ->.
  - by intros ->.
  - intros Ho%strict_eq_str_neq Hc%strict_eq_str_neq. by rewrite Ho, Hc.
  - by repeat destruct (strict_eq_str _ _).
Qed.

Lemma door_state_command_witness :
  serial_tx (doorState_onSnapshot
               (snapshot_of {[ "state"%string := VString (lit "open") ]})
               (initial []))
  = [(lit "UNLOCK" ++ NL, W_UNLOCK)].
Proof.
  pose proof (door_state_command
                (snapshot_of {[ "state"%string := VString (lit "open") ]})
                (initial []) eq_refl) as H.
  apply H; reflexivity.
Defined.

Lemma run_cons (e : event) (es : list event) (w : world) :
  run (e :: es) w = run es (dispatch e w).
Proof. reflexivity. Qed.

Lemma run_app (es1 es2 : list event) (w : world) :
  run (es1 ++ es2) w = run es2 (run es1 w).
Proof. apply foldl_app. Qed.

(** Snapshot deliveries one after the other: the writes of each delivery
    follow those of the deliveries before it, and are those of its own
    value. *)
Lemma run_snapshots_populated (snaps : list DocumentSnapshot) (w : world) :
  exit_status w = None ->
  Forall (fun s => populated s = true) snaps ->
  exit_status (run (map EvSnapshot snaps) w) = None
  /\ serial_tx (run (map EvSnapshot snaps) w)
     = serial_tx w
       ++ flat_map (fun s => if strict_eq_str (state_of s) (lit "open")
                             then [(lit "UNLOCK" ++ NL, W_UNLOCK)]
                             else if strict_eq_str (state_of s) (lit "closed")
                             then [(lit "LOCK" ++ NL, W_LOCK)]
                             else []) snaps.
Proof.
  intros Hrun Hall. revert w Hrun.
  induction Hall as [|s snaps Hp _ IH]; intros w Hrun.
  - cbn. by rewrite app_nil_r.
  - cbn [map]. rewrite run_cons. unfold dispatch.
    rewrite alive_running by done. cbn [handler].
    pose proof (onSnapshot_exit_status s w Hrun) as Hrun'.
    destruct (IH _ Hrun') as [IH1 IH2].
    split; [exact IH1|]. rewrite IH2.
    rewrite onSnapshot_populated by done.
    cbn [flat_map]. repeat destruct (strict_eq_str _ _); cbn;
      by rewrite <- ?app_assoc.
Qed.

(** C4, as the code has it.  The handler keeps no memory of the value it
    saw last.  Over every sequence of snapshot deliveries with a populated
    field, each delivery writes the command of its own value, after those
    of the deliveries before it: one command for a delivery carrying
    ["open"] or ["closed"], so one command per delivery, in the order of
    the deliveries, when all of them carry one of the two, also when
    consecutive deliveries carry the same value; no command for a delivery
    carrying any other value; two deliveries of ["open"] in a row write
    ["UNLOCK"] twice. *)
Theorem no_deduplication (snaps : list DocumentSnapshot) (w : world) :
  exit_status w = None ->
  Forall (fun s => populated s = true) snaps ->
  let w' := run (map EvSnapshot snaps) w in
  serial_tx w'
  = serial_tx w
    ++ flat_map (fun s => if strict_eq_str (state_of s) (lit "open")
                          then [(lit "UNLOCK" ++ NL, W_UNLOCK)]
                          else if strict_eq_str (state_of s) (lit "closed")
                          then [(lit "LOCK" ++ NL, W_LOCK)]
                          else []) snaps
  /\ (Forall (fun s => state_of s = VString (lit "open")
                       \/ state_of s = VString (lit "closed")) snaps ->
      serial_tx w'
      = serial_tx w
        ++ map (fun s => if strict_eq_str (state_of s) (lit "open")
                         then (lit "UNLOCK" ++ NL, W_UNLOCK)
                         else (lit "LOCK" ++ NL, W_LOCK)) snaps
      /\ length (serial_tx w') = (length (serial_tx w) + length snaps)%nat)
  /\ (Forall (fun s => state_of s <> VString (lit "open")
                       /\ state_of s <> VString (lit "closed")) snaps ->
      serial_tx w' = serial_tx w)
  /\ (forall s, state_of s = VString (lit "open") -> snaps = [s; s] ->
      written w' = written w ++ [lit "UNLOCK" ++ NL; lit "UNLOCK" ++ NL]).
Proof.
  intros Hrun Hall w'. subst w'.
  destruct (run_snapshots_populated snaps w Hrun Hall) as [_ Htx].
  split; [exact Htx|]. unfold written. rewrite Htx. clear Htx Hall.
  split; [|split].
  - intros Hv.
    assert (Hm : flat_map
                   (fun s => if strict_eq_str (state_of s) (lit "open")
                             then [(lit "UNLOCK" ++ NL, W_UNLOCK)]
                             else if strict_eq_str (state_of s) (lit "closed")
                             then [(lit "LOCK" ++ NL, W_LOCK)]
                             else []) snaps
                 = map (fun s => if strict_eq_str (state_of s) (lit "open")
                                 then (lit "UNLOCK" ++ NL, W_UNLOCK)
                                 else (lit "LOCK" ++ NL, W_LOCK)) snaps).
    { induction Hv as [|s snaps Hs _ IH]; [done|].
      cbn [flat_map map]. rewrite IH.
      destruct Hs as [Hs | Hs]; rewrite Hs; cbn; by decide_tests. }
    rewrite Hm. split; [done|]. by rewrite length_app, length_map.
  - intros Hv.
    assert (Hm : flat_map
                   (fun s => if strict_eq_str (state_of s) (lit "open")
                             then [(lit "UNLOCK" ++ NL, W_UNLOCK)]
                             else if strict_eq_str (state_of s) (lit "closed")
                             then [(lit "LOCK" ++ NL, W_LOCK)]
                             else []) snaps = []).
    { induction Hv as [|s snaps [Ho Hc] _ IH]; [done|].
      cbn [flat_map]. rewrite IH.
      apply strict_eq_str_neq in Ho. apply strict_eq_str_neq in Hc.
      by rewrite Ho, Hc. }
    by rewrite Hm, app_nil_r.
  - intros s Hs ->. rewrite map_app. cbn [flat_map].
    rewrite Hs. cbn. by decide_tests.
Qed.

Lemma no_deduplication_witness :
  let open := snapshot_of {[ "state"%string := VString (lit "open") ]} in
  let ajar := snapshot_of {[ "state"%string := VString (lit "ajar") ]} in
  serial_tx (run [EvSnapshot open; EvSnapshot ajar; EvSnapshot open]
               (initial []))
  = [(lit "UNLOCK" ++ NL, W_UNLOCK); (lit "UNLOCK" ++ NL, W_UNLOCK)].
Proof.
  intros open ajar.
  assert (Hall : Forall (fun s => populated s = true) [open; ajar; open]).
  { repeat constructor. }
  pose proof (no_deduplication [open; ajar; open] (initial []) eq_refl Hall)
    as (H & _).
  exact H.
Defined.

(** C4, read as one command for every delivery with a populated field,
    does not hold: a delivery whose populated field holds neither ["open"]
    nor ["closed"] writes no command at all. *)
Lemma populated_delivery_without_command :
  ~ (forall (snaps : list DocumentSnapshot) (w : world),
       exit_status w = None ->
       Forall (fun s => populated s = true) snaps ->
       length (serial_tx (run (map EvSnapshot snaps) w))
       = (length (serial_tx w) + length snaps)%nat).
Proof.
  intros H.
  specialize (H [snapshot_of {[ "state"%string := VString (lit "ajar") ]}]
                (initial []) eq_refl).
  discriminate H. repeat constructor.
Qed.

(** C5.  A snapshot of a document that does not exist makes the handler
    call [set] once, with the document [{ state: "closed" }], and return:
    nothing is logged, nothing is written to the port, no client is sent
    anything. *)
Theorem absent_document_seed (s : DocumentSnapshot) (w : world) :
  exit_status w = None ->
  snap_exists s = false ->
  let w' := doorState_onSnapshot s w in
  doc_sets w' = doc_sets w ++ [default_doc]
  /\ default_doc = {[ "state"%string := VString (lit "closed") ]}
  /\ serial_tx w' = serial_tx w
  /\ console w' = console w
  /\ clients w' = clients w
  /\ exit_status w' = None.
Proof.
  intros Hrun He w'. subst w'. unfold doorState_onSnapshot. rewrite He.
  by cbn.
Qed.

Lemma absent_document_seed_witness :
  doc_sets (doorState_onSnapshot {| snap_exists := false; snap_data := None |}
              (initial []))
  = [default_doc].
Proof.
  pose proof (absent_document_seed {| snap_exists := false; snap_data := None |}
                (initial []) eq_refl eq_refl) as (H & _).
  exact H.
Defined.

(** C6.  A snapshot of an existing document whose state field is absent
    (no data, or no field) or empty (the empty string, or null) is ignored:
    the world after the handler is the world before it, so nothing is
    logged, written to the port, sent to a client or set in the document. *)
Theorem unpopulated_snapshot_ignored (s : DocumentSnapshot) (w : world) :
  snap_exists s = true ->
  snap_data s = None
  \/ (exists data, snap_data s = Some data
                   /\ (data !! "state"%string = None
                       \/ data !! "state"%string = Some (VString [])
                       \/ data !! "state"%string = Some VNull)) ->
  doorState_onSnapshot s w = w.
Proof.
  intros He Hs. apply onSnapshot_unpopulated; [done|].
  unfold populated. rewrite He. cbn.
  destruct Hs as [-> | (data & -> & [Hf | [Hf | Hf]])]; [done| | |];
    unfold field; by rewrite Hf.
Qed.

Lemma unpopulated_snapshot_ignored_witness :
  doorState_onSnapshot (snapshot_of {[ "state"%string := VString [] ]})
    (initial [])
  = initial [].
Proof.
  apply unpopulated_snapshot_ignored; [reflexivity|].
  right. eexists. split; [reflexivity|]. right. left. reflexivity.
Defined.

(** ** The fan-out of device lines *)

(** The loop body leaves the state of a connection as it is and hands the
    message to [send] when that state is [OPEN], and only then. *)
Lemma broadcast_one_spec (msg : jsstring) (ws : connection) :
  readyState (broadcast_one msg ws) = readyState ws
  /\ (readyState ws = OPEN -> sent (broadcast_one msg ws) = sent ws ++ [msg])
  /\ (readyState ws <> OPEN -> broadcast_one msg ws = ws).
Proof.
  unfold broadcast_one. case_bool_decide as Ho; cbn; by repeat split.
Qed.

(** C3.  A line [L] from the device is trimmed (whitespace and line
    terminators are taken off its two ends, nothing else is changed) and
    sent once to each connection of [wss.clients] that is [OPEN] at that
    moment; a connection in any other state is left as it was.  What a
    connection gets depends on its own state only, whatever the states of
    the connections before and after it in the set. *)
Theorem device_line_broadcast (line : jsstring) (w : world) :
  exit_status w = None ->
  let L := trim line in
  let w' := parser_on_data line w in
  (exists w1 w2, line = w1 ++ L ++ w2
                 /\ all_trimmable w1 = true /\ all_trimmable w2 = true)
  /\ length (clients w') = length (clients w)
  /\ (forall (i : nat) (ws : connection),
        clients w !! i = Some ws ->
        exists ws', clients w' !! i = Some ws'
                    /\ readyState ws' = readyState ws
                    /\ (readyState ws = OPEN -> sent ws' = sent ws ++ [L])
                    /\ (readyState ws <> OPEN -> ws' = ws))
  /\ console w' = console w ++ [Log [AStr (8656 :: lit " From Arduino:"); AStr L]]
  /\ serial_tx w' = serial_tx w
  /\ doc_sets w' = doc_sets w
  /\ exit_status w' = None.
Proof.
  intros Hrun L w'. subst w'. unfold parser_on_data. fold L. step_handler.
  split; [apply trim_split|]. cbn.
  split; [apply length_map|]. split; [|done].
  intros i ws Hi. exists (broadcast_one L ws).
  split; [by rewrite list_lookup_fmap, Hi|]. apply broadcast_one_spec.
Qed.

Lemma device_line_broadcast_witness :
  let cs := [ {| readyState := CLOSED; sent := [] |};
              {| readyState := OPEN; sent := [] |} ] in
  exists ws', clients (parser_on_data (lit "DOOR_LOCKED" ++ [13]) (initial cs))
                !! 1%nat = Some ws'
              /\ sent ws' = [lit "DOOR_LOCKED"].
Proof.
  intros cs.
  pose proof (device_line_broadcast (lit "DOOR_LOCKED" ++ [13]) (initial cs)
                eq_refl) as (_ & _ & H & _).
  destruct (H 1%nat {| readyState := OPEN; sent := [] |} eq_refl)
    as (ws' & Hl & _ & Hs & _).
  exists ws'. split; [exact Hl|]. exact (Hs eq_refl).
Defined.

(** ** Failures *)

Lemma run_process_cons (o : occurrence) (os : list occurrence) (w : world) :
  run_process (o :: os) w = run_process os (step o w).
Proof. reflexivity. Qed.


Lemma run_process_terminated (os : list occurrence) (w : world) (c : Z) :
  exit_status w = Some c -> run_process os w = w.
Proof.
  intros Hex. induction os as [|o os IH]; [done|].
  rewrite run_process_cons. unfold step. by rewrite (alive_terminated _ _ c).
Qed.

(** C7.  When a [port.write] fails, the callback of the write, at
    whichever of the six call sites, logs the error with [console.error]
    and does nothing else: no write is issued again, no client is sent
    anything, the document is not set, and the callback does not end the
    process.  The process does not keep running, though: after the
    callback the stream emits ["error"] on the port, the source registers
    no listener for it, and the process ends with the status 1; nothing
    that happens later is handled. *)
Theorem write_failure_fatal (site : write_site) (e : Error) (w : world) :
  exit_status w = None ->
  let w1 := dispatch (EvWritten site (Some e)) w in
  let w' := step (WriteFailed site e) w in
  (console w1
   = console w
     ++ [Err [AStr (lit "Error writing " ++ site_name site ++ lit " to serial:");
              AStr (message e)]]
   /\ serial_tx w1 = serial_tx w
   /\ clients w1 = clients w
   /\ doc_sets w1 = doc_sets w
   /\ exit_status w1 = None)
  /\ has_error_listener E_port = false
  /\ w' = uncaught_exception w1
  /\ exit_status w' = Some 1%Z
  /\ (forall os, run_process os w' = w').
Proof.
  intros Hrun w1 w'.
  assert (Hw1 : w1 = console_error
                       [AStr (lit "Error writing " ++ site_name site
                              ++ lit " to serial:"); AStr (message e)] w).
  { subst w1. unfold dispatch. by rewrite alive_running. }
  assert (Hw' : w' = uncaught_exception w1).
  { subst w'. unfold step. rewrite alive_running by done.
    rewrite seq_running by done. by rewrite Hw1. }
  split; [rewrite Hw1; by cbn|]. split; [done|]. split; [exact Hw'|].
  split; [by rewrite Hw'|].
  intros os. apply run_process_terminated with 1%Z. by rewrite Hw'.
Qed.

Lemma write_failure_fatal_witness :
  let w := ws_on_message (lit "CLOSE")
             (initial [{| readyState := OPEN; sent := [] |}]) in
  exit_status (step (WriteFailed W_CLOSE {| message := lit "EIO" |}) w)
  = Some 1%Z.
Proof.
  intros w.
  pose proof (write_failure_fatal W_CLOSE {| message := lit "EIO" |} w eq_refl)
    as (_ & _ & _ & H & _).
  exact H.
Defined.

(** C8.  When the serial port cannot be opened, the open callback logs the
    error and calls [process.exit(1)]: the process terminates with the
    status 1, which is not zero, the message that the port is open is never
    logged, and no later event is handled. *)
Theorem serial_open_failure_fatal (e : Error) (w : world) :
  exit_status w = None ->
  let w' := dispatch (EvSerialOpen (Some e)) w in
  exit_status w' = Some 1%Z
  /\ 1%Z <> 0%Z
  /\ console w'
     = console w
       ++ [Err [AStr (lit "Error opening serial port:"); AStr (message e)]]
  /\ serial_tx w' = serial_tx w
  /\ (forall es, run es w' = w').
Proof.
  intros Hrun w'.
  assert (Hw : w' = process_exit 1
                      (console_error [AStr (lit "Error opening serial port:");
                                      AStr (message e)] w)).
  { subst w'. unfold dispatch. rewrite alive_running by done.
    cbn [handler]. unfold serial_open_cb, seq.
    rewrite (alive_running (process_exit 1)) by done.
    by apply alive_terminated with 1%Z. }
  rewrite Hw. cbn. repeat split; try done.
  intros es. induction es as [|e' es IH]; [done|].
  rewrite run_cons. unfold dispatch.
  by rewrite (alive_terminated _ _ 1%Z).
Qed.

Lemma serial_open_failure_fatal_witness :
  exit_status (dispatch (EvSerialOpen (Some {| message := lit "File not found" |}))
                 (initial []))
  = Some 1%Z.
Proof.
  pose proof (serial_open_failure_fatal {| message := lit "File not found" |}
                (initial []) eq_refl) as (H & _).
  exact H.
Defined.

(** ** The remote document *)

(** The one handler that calls [set] is the snapshot handler, on a
    snapshot of an absent document, and it sets the default document. *)
Lemma handler_doc_sets (e : event) (w : world) :
  exit_status w = None ->
  doc_sets (handler e w)
  = doc_sets w ++ (if absent_snapshot e then [default_doc] else []).
Proof.
  intros Hrun. destruct e as [[err|]| |line| |rawMsg| |err|s|error|site [err|]];
    cbn [handler absent_snapshot]; rewrite ?app_nil_r; try done.
  - unfold serial_open_cb, seq.
    rewrite (alive_running (process_exit 1)) by done.
    by rewrite (alive_terminated _ _ 1%Z).
  - unfold serial_open_cb. by step_handler.
  - unfold parser_on_data. by step_handler.
  - by destruct (ws_on_message_running rawMsg w Hrun) as [site ->].
  - destruct (snap_exists s) eqn:He; cbn [negb].
    + rewrite app_nil_r. destruct (populated s) eqn:Hp.
      * rewrite onSnapshot_populated by done.
        by repeat destruct (strict_eq_str _ _).
      * by rewrite onSnapshot_unpopulated.
    + unfold doorState_onSnapshot. by rewrite He.
Qed.

Lemma dispatch_doc_sets (e : event) (w : world) :
  exists n : nat,
    (n <= if absent_snapshot e then 1 else 0)%nat
    /\ doc_sets (dispatch e w) = doc_sets w ++ replicate n default_doc.
Proof.
  unfold dispatch. destruct (exit_status w) as [c|] eqn:Hex.
  - exists 0%nat. rewrite (alive_terminated _ _ c) by done.
    cbn. rewrite app_nil_r. split; [lia | done].
  - rewrite alive_running, handler_doc_sets by done.
    destruct (absent_snapshot e); [by exists 1%nat | by exists 0%nat].
Qed.

(** C9.  Over every sequence of events delivered to the process, the only
    calls of [set] on the document are seeds of [{ state: "closed" }], at
    most one for each snapshot of an absent document; when no event of the
    sequence is such a snapshot, device lines, client messages, snapshots
    of an existing document and all other events leave the document
    without a single [set]. *)
Theorem remote_document_frame (es : list event) (w : world) :
  (exists n : nat,
     (n <= length (filter (fun e => absent_snapshot e = true) es))%nat
     /\ doc_sets (run es w) = doc_sets w ++ replicate n default_doc)
  /\ (Forall (fun e => absent_snapshot e = false) es ->
      doc_sets (run es w) = doc_sets w).
Proof.
  assert (H : exists n : nat,
     (n <= length (filter (fun e => absent_snapshot e = true) es))%nat
     /\ doc_sets (run es w) = doc_sets w ++ replicate n default_doc).
  { revert w. induction es as [|e es IH]; intros w.
    - exists 0%nat. cbn. by rewrite app_nil_r.
    - rewrite run_cons.
      destruct (dispatch_doc_sets e w) as (k & Hk & Hd).
      destruct (IH (dispatch e w)) as (n & Hn & Hr).
      exists (k + n)%nat. split.
      + rewrite filter_cons. destruct (absent_snapshot e) eqn:Ha.
        * rewrite decide_True by done. cbn. lia.
        * rewrite decide_False by done. lia.
      + by rewrite Hr, Hd, <- app_assoc, replicate_add. }
  split; [exact H|].
  intros Hall. destruct H as (n & Hn & ->).
  assert (Hf : filter (fun e => absent_snapshot e = true) es = []).
  { clear -Hall. induction Hall as [|e es He _ IH]; [done|].
    rewrite filter_cons, decide_False, IH; [done | by rewrite He]. }
  rewrite Hf in Hn. cbn in Hn. assert (n = 0%nat) as -> by lia.
  cbn. by rewrite app_nil_r.
Qed.

Lemma remote_document_frame_witness :
  doc_sets (run [EvParserData (lit "DOOR_OPENED"); EvMessage (lit "CLOSE");
                 EvSnapshot (snapshot_of {[ "state"%string := VString (lit "open") ]})]
              (initial []))
  = [].
Proof.
  pose proof (remote_document_frame
                [EvParserData (lit "DOOR_OPENED"); EvMessage (lit "CLOSE");
                 EvSnapshot (snapshot_of {[ "state"%string := VString (lit "open") ]})]
                (initial [])) as (_ & H).
  apply H. repeat constructor.
Defined.

(** ** The scenarios of the specification, run on the embedding *)

Example scenario_document_becomes_open :
  written (run [EvSnapshot (snapshot_of {[ "state"%string := VString (lit "open") ]})]
             (initial []))
  = [lit "UNLOCK" ++ NL].
Proof. reflexivity. Qed.

Example scenario_passcode :
  written (run [EvMessage (lit "PASSCODE:7781")] (initial []))
  = [lit "PASSCODE:7781" ++ NL].
Proof. reflexivity. Qed.

Example scenario_close :
  written (run [EvMessage (lit "CLOSE")] (initial [])) = [lit "CLOSE" ++ NL].
Proof. reflexivity. Qed.

Example scenario_door_locked :
  clients (run [EvParserData (lit "DOOR_LOCKED")]
             (initial [ {| readyState := OPEN; sent := [] |};
                        {| readyState := CLOSING; sent := [] |};
                        {| readyState := OPEN; sent := [lit "READY"] |} ]))
  = [ {| readyState := OPEN; sent := [lit "DOOR_LOCKED"] |};
      {| readyState := CLOSING; sent := [] |};
      {| readyState := OPEN; sent := [lit "READY"; lit "DOOR_LOCKED"] |} ].
Proof. reflexivity. Qed.

Example scenario_absent_then_seeded :
  let w := run [EvSnapshot {| snap_exists := false; snap_data := None |};
                EvSnapshot (snapshot_of default_doc)] (initial []) in
  doc_sets w = [default_doc] /\ written w = [lit "LOCK" ++ NL].
Proof. split; reflexivity. Qed.

(** * Further properties of the handlers *)

(** ** Helpers *)

Lemma run_terminated (es : list event) (w : world) (c : Z) :
  exit_status w = Some c -> run es w = w.
Proof.
  intros Hex. induction es as [|e es IH]; [done|].
  rewrite run_cons. unfold dispatch. by rewrite (alive_terminated _ _ c).
Qed.

(** Trimmable code units around a string do not change what [trim] returns. *)
Lemma trim_padding (w1 s w2 : jsstring) :
  all_trimmable w1 = true -> all_trimmable w2 = true ->
  trim (w1 ++ s ++ w2) = trim s.
Proof.
  intros H1 H2. destruct (trim_split s) as (a & b & Hs & Ha & Hb).
  assert (E : w1 ++ s ++ w2 = (w1 ++ a) ++ trim s ++ (b ++ w2)).
  { rewrite Hs at 1. by rewrite <- !app_assoc. }
  rewrite E. apply trim_sandwich; [| |apply trim_trimmed];
    rewrite all_trimmable_app; by apply andb_true_iff.
Qed.

Lemma serial_open_cb_failure (e : Error) (w : world) :
  exit_status w = None ->
  serial_open_cb (Some e) w
  = process_exit 1
      (console_error [AStr (lit "Error opening serial port:");
                      AStr (message e)] w).
Proof.
  intros Hrun. unfold serial_open_cb, seq.
  rewrite (alive_running (process_exit 1)) by done.
  by apply alive_terminated with 1%Z.
Qed.


(** What a handler writes to the port does not depend on the world it runs
    in. *)
Lemma handler_serial_tx (e : event) (w : world) :
  exit_status w = None ->
  serial_tx (handler e w) = serial_tx w ++ serial_tx (handler e (initial [])).
Proof.
  intros Hrun. destruct e as [[err|]| |line| |rawMsg| |err|s|error|site [err|]];
    cbn [handler]; try (cbn; by rewrite app_nil_r).
  - rewrite !serial_open_cb_failure by done. cbn. by rewrite app_nil_r.
  - unfold serial_open_cb. rewrite !seq_running by done. cbn.
    by rewrite app_nil_r.
  - unfold parser_on_data. rewrite !seq_running by done. cbn.
    by rewrite app_nil_r.
  - unfold ws_on_message. rewrite !seq_running by done.
    repeat match goal with |- context [if ?b then _ else _] => destruct b end;
      done.
  - destruct (snap_exists s) eqn:He.
    + destruct (populated s) eqn:Hp.
      * rewrite !onSnapshot_populated by done.
        repeat destruct (strict_eq_str _ _); cbn; by rewrite ?app_nil_r.
      * rewrite !onSnapshot_unpopulated by done. cbn. by rewrite app_nil_r.
    + unfold doorState_onSnapshot. rewrite He. cbn. by rewrite app_nil_r.
Qed.



Lemma ws_on_message_written (rawMsg : jsstring) (w : world) :
  exit_status w = None ->
  written (ws_on_message rawMsg w) = written w ++ [trim rawMsg ++ NL].
Proof.
  intros Hrun. destruct (ws_on_message_running rawMsg w Hrun) as [site ->].
  unfold written. cbn. by rewrite map_app.
Qed.

Lemma snoc_neq {A} (l : list A) (x : A) : l ++ [x] <> l.
Proof.
  intros H. apply (f_equal length) in H. rewrite length_app in H.
  cbn in H. lia.
Qed.

Lemma door_state_populated (s : DocumentSnapshot) (t : jsstring) :
  snap_exists s = true -> state_of s = VString t -> t <> [] ->
  populated s = true.
Proof.
  unfold populated, state_of. intros -> Hs Ht. cbn.
  destruct (snap_data s) as [data|]; [|done]. rewrite Hs. cbn.
  apply negb_true_iff. by apply str_eqb_neq.
Qed.

(** ** Whitespace around a message or a line *)

(** X1.  Whitespace and line terminators around a client message, or
    around a line of the device (the carriage return of a CR-LF line
    ending, for one), change nothing: the handler does what it does on the
    text without them. *)
Theorem padding_insensitive (w1 s w2 : jsstring) (w : world) :
  all_trimmable w1 = true -> all_trimmable w2 = true ->
  ws_on_message (w1 ++ s ++ w2) w = ws_on_message s w
  /\ parser_on_data (w1 ++ s ++ w2) w = parser_on_data s w.
Proof.
  intros H1 H2. unfold ws_on_message, parser_on_data.
  by rewrite trim_padding.
Qed.

Lemma padding_insensitive_witness :
  parser_on_data (lit "DOOR_LOCKED" ++ [13]) (initial [])
  = parser_on_data (lit "DOOR_LOCKED") (initial []).
Proof.
  pose proof (padding_insensitive [] (lit "DOOR_LOCKED") [13] (initial [])
                eq_refl eq_refl) as [_ H].
  exact H.
Defined.

(** X2.  The token after ["PASSCODE:"] is not inspected: whatever it is,
    the empty token and tokens with spaces or newlines inside included, the
    message goes through the passcode branch and is written with the token
    as it is; only whitespace at the very end of the token is lost, to
    [trim]. *)
Theorem passcode_token_opaque (w1 token w2 : jsstring) (w : world) :
  exit_status w = None ->
  all_trimmable w1 = true -> all_trimmable w2 = true ->
  starts_trimmable (rev token) = false ->
  serial_tx (ws_on_message (w1 ++ (lit "PASSCODE:" ++ token) ++ w2) w)
  = serial_tx w ++ [(lit "PASSCODE:" ++ token ++ NL, W_PASSCODE)].
Proof.
  intros Hrun H1 H2 Ht. unfold ws_on_message.
  assert (Htr : trimmed (lit "PASSCODE:" ++ token) = true).
  { unfold trimmed. apply andb_true_iff. split; [done|].
    rewrite rev_app_distr. apply negb_true_iff.
    destruct (rev token) as [|c r]; [done | exact Ht]. }
  rewrite trim_sandwich by done. rewrite seq_running by done.
  assert (Hp : startsWith (lit "PASSCODE:" ++ token) (lit "PASSCODE:") = true).
  { apply startsWith_prefix. by exists token. }
  rewrite Hp. cbn. by rewrite <- app_assoc.
Qed.

Lemma passcode_token_opaque_witness :
  serial_tx (ws_on_message (lit "PASSCODE:" ++ [32]) (initial []))
  = [(lit "PASSCODE:" ++ NL, W_PASSCODE)].
Proof.
  exact (passcode_token_opaque [] [] [32] (initial [])
           eq_refl eq_refl eq_refl eq_refl).
Defined.

(** ** Callbacks that only log *)

(** X4.  The callbacks for a successful open, for the listening server,
    for a connection, a close and an error of a client, for an error of
    the subscription and for a completed write print at most one console
    line and do nothing else: no write to the port, no message to a client,
    no [set] of the document, no exit. *)
Theorem log_only_events_frame (e : event) (w : world) :
  log_only e = true ->
  let w' := dispatch e w in
  serial_tx w' = serial_tx w
  /\ clients w' = clients w
  /\ doc_sets w' = doc_sets w
  /\ exit_status w' = exit_status w
  /\ exists entries, console w' = console w ++ entries
                     /\ (length entries <= 1)%nat.
Proof.
  intros Hl w'. subst w'. unfold dispatch.
  destruct (exit_status w) as [c|] eqn:Hex.
  { rewrite (alive_terminated _ _ c) by done. repeat split; try done.
    exists []. split; [by rewrite app_nil_r | cbn; lia]. }
  rewrite alive_running by done.
  destruct e as [[err|]| |line| |rawMsg| |err|s|error|site [err|]];
    try discriminate Hl; cbn [handler].
  - unfold serial_open_cb. rewrite seq_running by done.
    cbn. rewrite ?Hex. repeat split; try done. eexists; split; [done | cbn; lia].
  - cbn. rewrite ?Hex. repeat split; try done. eexists; split; [done | cbn; lia].
  - cbn. rewrite ?Hex. repeat split; try done. eexists; split; [done | cbn; lia].
  - cbn. rewrite ?Hex. repeat split; try done. eexists; split; [done | cbn; lia].
  - cbn. rewrite ?Hex. repeat split; try done. eexists; split; [done | cbn; lia].
  - cbn. rewrite ?Hex. repeat split; try done. eexists; split; [done | cbn; lia].
  - cbn. rewrite ?Hex. repeat split; try done. eexists; split; [done | cbn; lia].
  - cbn. rewrite ?Hex. repeat split; try done.
    exists []. split; [by rewrite app_nil_r | cbn; lia].
Qed.

Lemma log_only_events_frame_witness :
  let w := ws_on_message (lit "RESET") (initial []) in
  serial_tx (dispatch (EvSnapshotError {| message := lit "UNAVAILABLE" |}) w)
  = serial_tx w.
Proof.
  intros w.
  pose proof (log_only_events_frame
                (EvSnapshotError {| message := lit "UNAVAILABLE" |}) w eq_refl)
    as (H & _).
  exact H.
Defined.

(** ** The two directions of the relay over a sequence of events *)




Lemma handler_written_ok (e : event) :
  Forall device_line_ok (written (handler e (initial []))).
Proof.
  destruct e as [[err|]| |line| |rawMsg| |err|s|error|site [err|]];
    cbn [handler]; try (by apply Forall_nil).
  - rewrite ws_on_message_written by done. cbn.
    constructor; [|constructor]. exists (trim rawMsg).
    split; [done | apply trim_trimmed].
  - destruct (snap_exists s) eqn:He.
    + destruct (populated s) eqn:Hp.
      * rewrite onSnapshot_populated by done.
        repeat destruct (strict_eq_str _ _); try (by apply Forall_nil).
        -- constructor; [|constructor]. by exists (lit "UNLOCK").
        -- constructor; [|constructor]. by exists (lit "LOCK").
      * rewrite onSnapshot_unpopulated by done. by apply Forall_nil.
    + unfold doorState_onSnapshot. rewrite He. by apply Forall_nil.
Qed.

(** X7.  Everything the program writes to the port ends with the newline
    that terminates a line for the device, and the text before that
    newline neither begins nor ends with whitespace or a line terminator:
    no event can make the program write data that is not terminated, or a
    command padded with blanks. *)
Theorem written_lines_well_formed (es : list event) (w : world) :
  Forall device_line_ok (written w) ->
  Forall device_line_ok (written (run es w)).
Proof.
  revert w. induction es as [|e es IH]; intros w Hw; [done|].
  rewrite run_cons. apply IH. unfold dispatch.
  destruct (exit_status w) as [c|] eqn:Hex.
  - by rewrite (alive_terminated _ _ c).
  - rewrite alive_running by done. unfold written.
    rewrite handler_serial_tx, map_app by done.
    apply Forall_app. split; [exact Hw | apply handler_written_ok].
Qed.

Lemma written_lines_well_formed_witness :
  Forall device_line_ok
    (written (run [EvMessage ([32] ++ lit "open sesame" ++ [13; 10]);
                   EvSnapshot (snapshot_of default_doc)]
                (initial []))).
Proof.
  apply written_lines_well_formed. apply Forall_nil. done.
Defined.

(** ** The snapshot handler as a source of commands *)

(** X8.  A snapshot makes the handler write to the port exactly when the
    document exists and its state field is the string ["open"] or the
    string ["closed"]: a missing document, a missing or falsy field, a
    string of another spelling and a value of another type (a boolean, a
    number, a map) write nothing. *)
Theorem snapshot_writes_iff (s : DocumentSnapshot) (w : world) :
  exit_status w = None ->
  (snap_exists s = true
   /\ (state_of s = VString (lit "open")
       \/ state_of s = VString (lit "closed")))
  <-> serial_tx (doorState_onSnapshot s w) <> serial_tx w.
Proof.
  intros Hrun. split.
  - intros [He Hv].
    assert (Hp : populated s = true).
    { destruct Hv as [Hv | Hv];
        by apply (door_state_populated s _ He Hv). }
    rewrite onSnapshot_populated by done.
    destruct Hv as [Hv | Hv]; rewrite Hv; cbn; decide_tests; cbn;
      apply snoc_neq.
  - intros Hne. destruct (snap_exists s) eqn:He.
    + split; [done|]. destruct (populated s) eqn:Hp.
      * rewrite onSnapshot_populated in Hne by done.
        destruct (strict_eq_str (state_of s) (lit "open")) eqn:Ho.
        { left. by apply strict_eq_str_eq. }
        destruct (strict_eq_str (state_of s) (lit "closed")) eqn:Hc.
        { right. by apply strict_eq_str_eq. }
        by destruct Hne.
      * rewrite onSnapshot_unpopulated in Hne by done. by destruct Hne.
    + unfold doorState_onSnapshot in Hne. rewrite He in Hne. by destruct Hne.
Qed.

Lemma snapshot_writes_iff_witness :
  serial_tx (doorState_onSnapshot
               (snapshot_of {[ "state"%string := VBool true ]}) (initial []))
  = serial_tx (initial []).
Proof.
  pose proof (snapshot_writes_iff
                (snapshot_of {[ "state"%string := VBool true ]}) (initial [])
                eq_refl) as [_ H].
  destruct (decide (serial_tx (doorState_onSnapshot
                      (snapshot_of {[ "state"%string := VBool true ]})
                      (initial []))
                    = serial_tx (initial []))) as [Heq | Hne]; [exact Heq|].
  destruct (H Hne) as [_ [Hv | Hv]]; discriminate Hv.
Defined.

(** X9.  Whatever a snapshot makes the program write to the port, a client
    message makes it write too: the free-form branch forwards ["UNLOCK"]
    and ["LOCK"] like any other text, so the device gets the same data from
    a client as from the document. *)
Theorem client_can_issue_door_commands (s : DocumentSnapshot) (w : world) :
  exit_status w = None ->
  serial_tx (doorState_onSnapshot s w) <> serial_tx w ->
  exists rawMsg,
    written (ws_on_message rawMsg w) = written (doorState_onSnapshot s w).
Proof.
  intros Hrun Hne. destruct (snap_exists s) eqn:He.
  - destruct (populated s) eqn:Hp.
    + rewrite onSnapshot_populated in Hne |- * by done.
      destruct (strict_eq_str (state_of s) (lit "open")).
      { exists (lit "UNLOCK"). rewrite ws_on_message_written by done.
        unfold written. cbn. by rewrite map_app. }
      destruct (strict_eq_str (state_of s) (lit "closed")).
      { exists (lit "LOCK"). rewrite ws_on_message_written by done.
        unfold written. cbn. by rewrite map_app. }
      by destruct Hne.
    + rewrite onSnapshot_unpopulated in Hne by done. by destruct Hne.
  - unfold doorState_onSnapshot in Hne. rewrite He in Hne. by destruct Hne.
Qed.

Lemma client_can_issue_door_commands_witness :
  exists rawMsg,
    written (ws_on_message rawMsg (initial []))
    = written (doorState_onSnapshot
                 (snapshot_of {[ "state"%string := VString (lit "open") ]})
                 (initial [])).
Proof.
  apply client_can_issue_door_commands; [reflexivity | discriminate].
Defined.

(** X10.  The seed closes the loop with the handler itself: after a
    snapshot of an absent document, the snapshot of the document the
    handler has set is handled as a populated one, writes ["LOCK"] to the
    port and sets nothing again. *)
Theorem seed_then_lock (s : DocumentSnapshot) (w : world) :
  exit_status w = None ->
  snap_exists s = false ->
  let w1 := dispatch (EvSnapshot s) w in
  forall d, last (doc_sets w1) = Some d ->
  let w2 := dispatch (EvSnapshot (snapshot_of d)) w1 in
  serial_tx w2 = serial_tx w ++ [(lit "LOCK" ++ NL, W_LOCK)]
  /\ doc_sets w2 = doc_sets w1
  /\ exit_status w2 = None.
Proof.
  intros Hrun He w1 d Hd w2.
  assert (Hw1 : w1 = doc_set default_doc w).
  { subst w1. unfold dispatch. rewrite alive_running by done.
    cbn [handler]. unfold doorState_onSnapshot. by rewrite He. }
  assert (d = default_doc) as ->.
  { rewrite Hw1 in Hd. cbn in Hd. rewrite last_snoc in Hd. congruence. }
  assert (Hrun1 : exit_status w1 = None) by by rewrite Hw1.
  subst w2. unfold dispatch. rewrite alive_running by done.
  cbn [handler]. rewrite onSnapshot_populated by done.
  change (state_of (snapshot_of default_doc)) with (VString (lit "closed")).
  cbn. decide_tests. cbn. by rewrite Hw1.
Qed.

Lemma seed_then_lock_witness :
  let w1 := dispatch (EvSnapshot {| snap_exists := false; snap_data := None |})
              (initial []) in
  serial_tx (dispatch (EvSnapshot (snapshot_of default_doc)) w1)
  = [(lit "LOCK" ++ NL, W_LOCK)].
Proof.
  intros w1.
  pose proof (seed_then_lock {| snap_exists := false; snap_data := None |}
                (initial []) eq_refl eq_refl default_doc eq_refl) as (H & _).
  exact H.
Defined.

(** ** The process in its environment *)








Example scenario_closed_client :
  clients (run_process [Callback (EvParserData (lit "CARD_OK")); Disconnect 0;
                        Callback (EvParserData (lit "DOOR_LOCKED"))]
             (initial [ {| readyState := OPEN; sent := [] |};
                        {| readyState := OPEN; sent := [] |} ]))
  = [ {| readyState := OPEN; sent := [lit "CARD_OK"; lit "DOOR_LOCKED"] |} ].
Proof. reflexivity. Qed.
